(** * openfxc-sem: the fixture [samples/custom/sm5/opaque_header.h]

    The repository excerpt is one C-style header that a shader preprocessor
    is expected to leave alone.  This development embeds the header's exact
    bytes, a lexer and a declaration parser for the C subset the header is
    written in, and a small static semantics (value typing and elaboration
    of file-scope declarations), and states the fixture's properties over
    them. *)

From Stdlib Require Import String Ascii List ZArith Lia Bool.
Import ListNotations.
Open Scope string_scope.
Set Warnings "-register-all".

(** ** Text utilities *)

Module Text.

Definition LF : ascii := "010"%char.
Definition TAB : ascii := "009"%char.
Definition CR : ascii := "013"%char.

Definition nl : string := String LF EmptyString.

Definition is_blank (c : ascii) : bool :=
  (c =? " ")%char || (c =? TAB)%char.

Definition is_space (c : ascii) : bool :=
  is_blank c || (c =? LF)%char || (c =? CR)%char.

(** Lines of a text: a line is ended by LF; an unterminated last line
    counts when it is not empty. *)
Fixpoint split_lines (s : string) : list string :=
  match s with
  | EmptyString => []
  | String c s' =>
      if (c =? LF)%char then EmptyString :: split_lines s'
      else match split_lines s' with
           | [] => [String c EmptyString]
           | l :: ls => String c l :: ls
           end
  end.

Fixpoint occurs (c : ascii) (s : string) : bool :=
  match s with
  | EmptyString => false
  | String d s' => (c =? d)%char || occurs c s'
  end.

Fixpoint count_char (c : ascii) (s : string) : nat :=
  match s with
  | EmptyString => 0
  | String d s' => (if (c =? d)%char then 1 else 0) + count_char c s'
  end.

Fixpoint skip_blanks (s : string) : string :=
  match s with
  | String c s' => if is_blank c then skip_blanks s' else s
  | EmptyString => EmptyString
  end.

Definition starts_with (c : ascii) (s : string) : bool :=
  match s with
  | String d _ => (c =? d)%char
  | EmptyString => false
  end.

(** A preprocessor directive line: its first non-blank byte is [#]. *)
Definition is_directive_line (l : string) : bool :=
  starts_with "#" (skip_blanks l).

Definition directive_lines (s : string) : list string :=
  filter is_directive_line (split_lines s).

Definition is_line_comment (l : string) : bool :=
  prefix "//" (skip_blanks l).

End Text.

(** ** The header, byte for byte *)

Module Fixture.
Import Text.

Definition line1 : string :=
  "// Non-HLSL helper header that should be ignored by the preprocessor.".
Definition line2 : string :=
  "// Contains C-style declarations that are not valid HLSL.".
Definition line3 : string := "typedef struct _OpaqueItem {".
Definition line4 : string := "    int count;".
Definition line5 : string := "    int flags;".
Definition line6 : string := "} OpaqueItem;".
Definition line7 : string := "".
Definition line8 : string := "static const int gOpaqueValue = 7;".

(** [opaque_header.h]: 236 bytes, seven LF bytes, no LF after the last
    line. *)
Definition opaque_header_h : string :=
  line1 ++ nl ++ line2 ++ nl ++ line3 ++ nl ++ line4 ++ nl ++
  line5 ++ nl ++ line6 ++ nl ++ line7 ++ nl ++ line8.

(** The block that section 6 of the specification reproduces as the
    file's content (kept apart from the file itself, to compare them). *)
Definition spec_section6_block : string :=
  "typedef struct _OpaqueItem {" ++ nl ++
  "    int count;" ++ nl ++
  "    int flags;" ++ nl ++
  "} OpaqueItem;" ++ nl ++
  "" ++ nl ++
  "static const int gOpaqueValue = 7;".

Definition comment_header : string := line1 ++ nl ++ line2 ++ nl.

End Fixture.

(** ** Lexer for the C subset of the header

    A state machine over the bytes: one step per byte, emitting the lexemes
    that the byte completes.  Comments are kept as lexemes so that the whole
    content of a file is accounted for.  String and character literals,
    line splices outside comments and non-decimal numbers are rejected. *)

Module Lex.
Import Text.

Inductive keyword : Type :=
| KTypedef | KStatic | KExtern | KAuto | KRegister
| KConst | KVolatile
| KVoid | KChar | KShort | KInt | KLong | KFloat | KDouble
| KSigned | KUnsigned
| KStruct | KUnion | KEnum
| KIf | KElse | KWhile | KFor | KDo | KSwitch | KCase | KDefault
| KBreak | KContinue | KReturn | KGoto
| KSizeof.

Definition keyword_table : list (string * keyword) :=
  [ ("typedef", KTypedef); ("static", KStatic); ("extern", KExtern);
    ("auto", KAuto); ("register", KRegister);
    ("const", KConst); ("volatile", KVolatile);
    ("void", KVoid); ("char", KChar); ("short", KShort); ("int", KInt);
    ("long", KLong); ("float", KFloat); ("double", KDouble);
    ("signed", KSigned); ("unsigned", KUnsigned);
    ("struct", KStruct); ("union", KUnion); ("enum", KEnum);
    ("if", KIf); ("else", KElse); ("while", KWhile); ("for", KFor);
    ("do", KDo); ("switch", KSwitch); ("case", KCase);
    ("default", KDefault); ("break", KBreak); ("continue", KContinue);
    ("return", KReturn); ("goto", KGoto); ("sizeof", KSizeof) ].

Fixpoint lookup_keyword (tbl : list (string * keyword)) (s : string)
  : option keyword :=
  match tbl with
  | [] => None
  | (n, k) :: tbl' => if (n =? s)%string then Some k else lookup_keyword tbl' s
  end.

Inductive token : Type :=
| TKeyword (k : keyword)
| TIdent (name : string)
| TInt (value : Z)
| TPunct (c : ascii).

Inductive lexeme : Type :=
| LTok (t : token)
| LComment (text : string).

Definition in_range (lo hi : nat) (c : ascii) : bool :=
  let n := nat_of_ascii c in (lo <=? n)%nat && (n <=? hi)%nat.

Definition is_digit (c : ascii) : bool := in_range 48 57 c.

Definition is_alpha (c : ascii) : bool :=
  in_range 97 122 c || in_range 65 90 c || (c =? "_")%char.

Definition is_alnum (c : ascii) : bool := is_alpha c || is_digit c.

Definition punctuators : string := "{}()[];,=*+-<>!&|^~%?:.#".

Definition is_punct (c : ascii) : bool := occurs c punctuators.

(** The accumulators hold the bytes read so far, last byte first. *)
Definition text_of (acc : list ascii) : string :=
  string_of_list_ascii (rev acc).

Definition word_token (acc : list ascii) : token :=
  let s := text_of acc in
  match lookup_keyword keyword_table s with
  | Some k => TKeyword k
  | None => TIdent s
  end.

Definition digit_value (c : ascii) : Z := Z.of_nat (nat_of_ascii c) - 48.

Definition number_token (acc : list ascii) : option token :=
  if forallb is_digit acc
  then Some (TInt (fold_right (fun c v => 10 * v + digit_value c)%Z 0%Z acc))
  else None.

Inductive lstate : Type :=
| SDefault
| SIdent (acc : list ascii)
| SNumber (acc : list ascii)
| SSlash
| SLineComment (acc : list ascii)
| SBlockComment (acc : list ascii)
| SBlockStar (acc : list ascii).

Definition step_default (c : ascii) : option (list lexeme * lstate) :=
  if is_space c then Some ([], SDefault)
  else if is_alpha c then Some ([], SIdent [c])
  else if is_digit c then Some ([], SNumber [c])
  else if (c =? "/")%char then Some ([], SSlash)
  else if is_punct c then Some ([LTok (TPunct c)], SDefault)
  else None.

Definition emit_then (l : lexeme) (c : ascii)
  : option (list lexeme * lstate) :=
  match step_default c with
  | Some (out, st) => Some (l :: out, st)
  | None => None
  end.

Definition step (st : lstate) (c : ascii) : option (list lexeme * lstate) :=
  match st with
  | SDefault => step_default c
  | SIdent acc =>
      if is_alnum c then Some ([], SIdent (c :: acc))
      else emit_then (LTok (word_token acc)) c
  | SNumber acc =>
      if is_alnum c then Some ([], SNumber (c :: acc))
      else match number_token acc with
           | Some t => emit_then (LTok t) c
           | None => None
           end
  | SSlash =>
      if (c =? "/")%char then Some ([], SLineComment [])
      else if (c =? "*")%char then Some ([], SBlockComment [])
      else emit_then (LTok (TPunct "/")) c
  | SLineComment acc =>
      if (c =? LF)%char then
        match acc with
        | "\"%char :: _ => Some ([], SLineComment (c :: acc))
        | _ => Some ([LComment (text_of acc)], SDefault)
        end
      else Some ([], SLineComment (c :: acc))
  | SBlockComment acc =>
      if (c =? "*")%char then Some ([], SBlockStar acc)
      else Some ([], SBlockComment (c :: acc))
  | SBlockStar acc =>
      if (c =? "/")%char then Some ([LComment (text_of acc)], SDefault)
      else if (c =? "*")%char then Some ([], SBlockStar ("*"%char :: acc))
      else Some ([], SBlockComment (c :: "*"%char :: acc))
  end.

Definition finish (st : lstate) : option (list lexeme) :=
  match st with
  | SDefault => Some []
  | SIdent acc => Some [LTok (word_token acc)]
  | SNumber acc => option_map (fun t => [LTok t]) (number_token acc)
  | SSlash => Some [LTok (TPunct "/")]
  | SLineComment acc => Some [LComment (text_of acc)]
  | SBlockComment _ | SBlockStar _ => None
  end.

Fixpoint lex_from (st : lstate) (s : string) : option (list lexeme) :=
  match s with
  | EmptyString => finish st
  | String c s' =>
      match step st c with
      | Some (out, st') => option_map (app out) (lex_from st' s')
      | None => None
      end
  end.

Definition lex (s : string) : option (list lexeme) := lex_from SDefault s.

Fixpoint tokens_of (ls : list lexeme) : list token :=
  match ls with
  | [] => []
  | LTok t :: ls' => t :: tokens_of ls'
  | LComment _ :: ls' => tokens_of ls'
  end.

Fixpoint comments_of (ls : list lexeme) : list string :=
  match ls with
  | [] => []
  | LTok _ :: ls' => comments_of ls'
  | LComment c :: ls' => c :: comments_of ls'
  end.

Definition tokenize (s : string) : option (list token) :=
  option_map tokens_of (lex s).

Definition keyword_eqb (a b : keyword) : bool :=
  match a, b with
  | KTypedef, KTypedef | KStatic, KStatic | KExtern, KExtern
  | KAuto, KAuto | KRegister, KRegister | KConst, KConst
  | KVolatile, KVolatile | KVoid, KVoid | KChar, KChar
  | KShort, KShort | KInt, KInt | KLong, KLong | KFloat, KFloat
  | KDouble, KDouble | KSigned, KSigned | KUnsigned, KUnsigned
  | KStruct, KStruct | KUnion, KUnion | KEnum, KEnum | KIf, KIf
  | KElse, KElse | KWhile, KWhile | KFor, KFor | KDo, KDo
  | KSwitch, KSwitch | KCase, KCase | KDefault, KDefault
  | KBreak, KBreak | KContinue, KContinue | KReturn, KReturn
  | KGoto, KGoto | KSizeof, KSizeof => true
  | _, _ => false
  end.

Definition token_eqb (a b : token) : bool :=
  match a, b with
  | TKeyword k, TKeyword k' => keyword_eqb k k'
  | TIdent s, TIdent s' => (s =? s')%string
  | TInt z, TInt z' => (z =? z')%Z
  | TPunct c, TPunct c' => (c =? c')%char
  | _, _ => false
  end.

Definition is_control_keyword (k : keyword) : bool :=
  match k with
  | KIf | KElse | KWhile | KFor | KDo | KSwitch | KCase | KDefault
  | KBreak | KContinue | KReturn | KGoto => true
  | _ => false
  end.

Definition is_control_token (t : token) : bool :=
  match t with
  | TKeyword k => is_control_keyword k
  | _ => false
  end.

Definition count_token (t : token) (ts : list token) : nat :=
  length (filter (token_eqb t) ts).

End Lex.

(** ** Abstract syntax of file-scope declarations *)

Module Syntax.
Import Lex.

Inductive basic : Type :=
| BVoid | BChar | BShort | BInt | BLong | BFloat | BDouble
| BSigned | BUnsigned.

(** A type as it is spelled: the basic type words are kept in source
    order, a struct carries its tag and, where it is defined, its
    fields. *)
Inductive ctype : Type :=
| TBasic (ws : list basic)
| TStruct (tag : option string) (fields : option (list (string * ctype)))
| TNamed (name : string)
| TConst (t : ctype)
| TVolatile (t : ctype)
| TPointer (t : ctype)
| TArray (t : ctype) (n : Z)
| TFunction (params : list (option string * ctype)) (ret : ctype).

Inductive storage : Type := SNone | STypedef | SStatic | SExtern.

Inductive init : Type :=
| IInt (z : Z)
| INeg (z : Z)
| IName (x : string).

Record declaration : Type := mkDecl {
  dc_storage : storage;
  dc_base : ctype;
  dc_items : list (string * ctype * option init)
}.

Inductive external_decl : Type :=
| EDecl (d : declaration)
| EFunDef (sc : storage) (name : string) (ty : ctype) (body : list token).

Definition translation_unit : Type := list external_decl.

Definition basic_eqb (a b : basic) : bool :=
  match a, b with
  | BVoid, BVoid | BChar, BChar | BShort, BShort | BInt, BInt
  | BLong, BLong | BFloat, BFloat | BDouble, BDouble
  | BSigned, BSigned | BUnsigned, BUnsigned => true
  | _, _ => false
  end.

Definition storage_eqb (a b : storage) : bool :=
  match a, b with
  | SNone, SNone | STypedef, STypedef | SStatic, SStatic
  | SExtern, SExtern => true
  | _, _ => false
  end.

Fixpoint strip_quals (t : ctype) : ctype :=
  match t with
  | TConst t' | TVolatile t' => strip_quals t'
  | _ => t
  end.

(** Const-qualified at the top of the type (an array is const when its
    elements are). *)
Fixpoint is_const (t : ctype) : bool :=
  match t with
  | TConst _ => true
  | TVolatile t' => is_const t'
  | TArray t' _ => is_const t'
  | _ => false
  end.

Definition integer_word (b : basic) : bool :=
  match b with
  | BChar | BShort | BInt | BLong | BSigned | BUnsigned => true
  | BVoid | BFloat | BDouble => false
  end.

Definition is_integer_type (t : ctype) : bool :=
  match strip_quals t with
  | TBasic (w :: ws) => forallb integer_word (w :: ws)
  | _ => false
  end.

Definition is_plain_int (t : ctype) : bool :=
  match t with
  | TBasic [BInt] => true
  | _ => false
  end.

Definition is_function_type (t : ctype) : bool :=
  match t with
  | TFunction _ _ => true
  | _ => false
  end.

Definition defines_struct (t : ctype) : bool :=
  match strip_quals t with
  | TStruct _ (Some _) => true
  | _ => false
  end.

Definition tag_is (x : string) (tag : option string) : bool :=
  match tag with
  | Some y => (x =? y)%string
  | None => false
  end.

(** Number of places where a type refers to the typedef name [x] or to
    the struct tag [x] (a struct specifier without a body); the specifier
    that defines the struct is not a reference. *)
Fixpoint type_refs (x : string) (t : ctype) : nat :=
  match t with
  | TBasic _ => 0
  | TStruct tag None => if tag_is x tag then 1 else 0
  | TStruct _ (Some fs) =>
      (fix in_fields (l : list (string * ctype)) : nat :=
         match l with
         | [] => 0
         | (_, ft) :: l' => type_refs x ft + in_fields l'
         end) fs
  | TNamed n => if (x =? n)%string then 1 else 0
  | TConst t' | TVolatile t' | TPointer t' | TArray t' _ => type_refs x t'
  | TFunction ps r =>
      (fix in_params (l : list (option string * ctype)) : nat :=
         match l with
         | [] => 0
         | (_, pt) :: l' => type_refs x pt + in_params l'
         end) ps + type_refs x r
  end.

Definition item_name (it : string * ctype * option init) : string :=
  fst (fst it).
Definition item_type (it : string * ctype * option init) : ctype :=
  snd (fst it).
Definition item_init (it : string * ctype * option init) : option init :=
  snd it.

Definition decl_refs (x : string) (d : external_decl) : nat :=
  match d with
  | EDecl d =>
      match dc_items d with
      | [] => type_refs x (dc_base d)
      | its => list_sum (map (fun it => type_refs x (item_type it)) its)
      end
  | EFunDef _ _ ty body =>
      type_refs x ty + count_token (TIdent x) body
  end.

Definition tu_refs (x : string) (tu : translation_unit) : nat :=
  list_sum (map (decl_refs x) tu).

Inductive decl_kind : Type :=
| KindStructType   (* a declaration whose specifier defines a struct and
                      that declares no object: bare or under typedef *)
| KindTypedef
| KindConstant     (* const-qualified objects, each with an initializer *)
| KindVariable
| KindPrototype
| KindFunction
| KindEmpty.

Definition is_constant_item (it : string * ctype * option init) : bool :=
  is_const (item_type it) && negb (is_function_type (item_type it)) &&
  match item_init it with Some _ => true | None => false end.

Definition kind_of (d : external_decl) : decl_kind :=
  match d with
  | EFunDef _ _ _ _ => KindFunction
  | EDecl d =>
      match dc_storage d, dc_items d with
      | STypedef, _ =>
          if defines_struct (dc_base d) then KindStructType else KindTypedef
      | _, [] =>
          if defines_struct (dc_base d) then KindStructType else KindEmpty
      | _, its =>
          if forallb (fun it => is_function_type (item_type it)) its
          then KindPrototype
          else if forallb is_constant_item its then KindConstant
          else KindVariable
      end
  end.

Definition kind_eqb (a b : decl_kind) : bool :=
  match a, b with
  | KindStructType, KindStructType | KindTypedef, KindTypedef
  | KindConstant, KindConstant | KindVariable, KindVariable
  | KindPrototype, KindPrototype | KindFunction, KindFunction
  | KindEmpty, KindEmpty => true
  | _, _ => false
  end.

(** Names a declaration introduces at file scope. *)
Definition typedef_names (d : external_decl) : list string :=
  match d with
  | EDecl d =>
      match dc_storage d with
      | STypedef => map item_name (dc_items d)
      | _ => []
      end
  | EFunDef _ _ _ _ => []
  end.

Definition object_items (d : external_decl)
  : list (string * ctype * option init) :=
  match d with
  | EDecl d =>
      match dc_storage d with
      | STypedef => []
      | _ => filter (fun it => negb (is_function_type (item_type it)))
               (dc_items d)
      end
  | EFunDef _ _ _ _ => []
  end.

Definition struct_tags (d : external_decl) : list string :=
  match d with
  | EDecl d =>
      match strip_quals (dc_base d) with
      | TStruct (Some tag) (Some _) => [tag]
      | _ => []
      end
  | EFunDef _ _ _ _ => []
  end.

Definition is_fundef (d : external_decl) : bool :=
  match d with
  | EFunDef _ _ _ _ => true
  | EDecl _ => false
  end.

End Syntax.

(** ** Recursive-descent parser for file-scope declarations

    Parsers run on the token list and return the rest of it; the fuel
    bounds the nesting of specifiers, struct bodies and parameter lists and
    is taken from the number of tokens. *)

Module Parse.
Import Lex Syntax.

Notation "'let*' p ':=' e 'in' k" :=
  (match e with Some p => k | None => None end)
  (at level 10, p pattern, e at level 200, k at level 200).

Definition parser (A : Type) : Type := list token -> option (A * list token).

Record specs : Type := mkSpecs {
  sp_storage : option storage;
  sp_const : bool;
  sp_volatile : bool;
  sp_words : list basic;
  sp_type : option ctype
}.

Definition no_specs : specs := mkSpecs None false false [] None.

Definition has_type (sp : specs) : bool :=
  match sp_words sp, sp_type sp with
  | [], None => false
  | _, _ => true
  end.

Definition set_storage (sp : specs) (s : storage) : option specs :=
  match sp_storage sp with
  | None => Some (mkSpecs (Some s) (sp_const sp) (sp_volatile sp)
                    (sp_words sp) (sp_type sp))
  | Some _ => None
  end.

Definition set_const (sp : specs) : specs :=
  mkSpecs (sp_storage sp) true (sp_volatile sp) (sp_words sp) (sp_type sp).

Definition set_volatile (sp : specs) : specs :=
  mkSpecs (sp_storage sp) (sp_const sp) true (sp_words sp) (sp_type sp).

Definition add_word (sp : specs) (b : basic) : option specs :=
  match sp_type sp with
  | None => Some (mkSpecs (sp_storage sp) (sp_const sp) (sp_volatile sp)
                    (sp_words sp ++ [b])%list None)
  | Some _ => None
  end.

Definition set_type (sp : specs) (t : ctype) : option specs :=
  if has_type sp then None
  else Some (mkSpecs (sp_storage sp) (sp_const sp) (sp_volatile sp)
               [] (Some t)).

Definition specs_storage (sp : specs) : storage :=
  match sp_storage sp with
  | Some s => s
  | None => SNone
  end.

Definition specs_type (sp : specs) : ctype :=
  let t := match sp_type sp with
           | Some t => t
           | None => TBasic (sp_words sp)
           end in
  let t := if sp_volatile sp then TVolatile t else t in
  if sp_const sp then TConst t else t.

Definition finish_specs (sp : specs) : parser specs :=
  fun ts => if has_type sp then Some (sp, ts) else None.

Definition basic_of_keyword (k : keyword) : option basic :=
  match k with
  | KVoid => Some BVoid | KChar => Some BChar | KShort => Some BShort
  | KInt => Some BInt | KLong => Some BLong | KFloat => Some BFloat
  | KDouble => Some BDouble | KSigned => Some BSigned
  | KUnsigned => Some BUnsigned
  | _ => None
  end.

Definition is_typedef_name (tds : list string) (x : string) : bool :=
  existsb (String.eqb x) tds.

(** [*] and the qualifiers that follow it, in front of a declarator. *)
Fixpoint parse_pointers (t : ctype) (ts : list token) : ctype * list token :=
  match ts with
  | TPunct "*" :: ts' => parse_pointers (TPointer t) ts'
  | TKeyword KConst :: ts' => parse_pointers (TConst t) ts'
  | TKeyword KVolatile :: ts' => parse_pointers (TVolatile t) ts'
  | _ => (t, ts)
  end.

(** One or more items separated by [sep], closed by [term]. *)
Fixpoint sep_list {A : Type} (fuel : nat) (item : parser A)
    (sep term : ascii) (ts : list token) : option (list A * list token) :=
  match fuel with
  | O => None
  | S n =>
      let* (x, r) := item ts in
      match r with
      | TPunct c :: r' =>
          if (c =? sep)%char then
            let* (xs, r'') := sep_list n item sep term r' in
            Some (x :: xs, r'')
          else if (c =? term)%char then Some ([x], r')
          else None
      | _ => None
      end
  end.

Definition not_function {A : Type} (p : parser (A * ctype))
  : parser (A * ctype) :=
  fun ts =>
    let* (d, r) := p ts in
    if is_function_type (snd d) then None else Some (d, r).

Fixpoint parse_specs (fuel : nat) (tds : list string) (sp : specs)
    (ts : list token) {struct fuel} : option (specs * list token) :=
  match fuel with
  | O => None
  | S n =>
      match ts with
      | TKeyword KTypedef :: ts' =>
          let* sp' := set_storage sp STypedef in parse_specs n tds sp' ts'
      | TKeyword KStatic :: ts' =>
          let* sp' := set_storage sp SStatic in parse_specs n tds sp' ts'
      | TKeyword KExtern :: ts' =>
          let* sp' := set_storage sp SExtern in parse_specs n tds sp' ts'
      | TKeyword KConst :: ts' => parse_specs n tds (set_const sp) ts'
      | TKeyword KVolatile :: ts' => parse_specs n tds (set_volatile sp) ts'
      | TKeyword KStruct :: TIdent tag :: TPunct "{" :: ts' =>
          let* (fs, r) := parse_fields n tds ts' in
          let* sp' := set_type sp (TStruct (Some tag) (Some fs)) in
          parse_specs n tds sp' r
      | TKeyword KStruct :: TPunct "{" :: ts' =>
          let* (fs, r) := parse_fields n tds ts' in
          let* sp' := set_type sp (TStruct None (Some fs)) in
          parse_specs n tds sp' r
      | TKeyword KStruct :: TIdent tag :: ts' =>
          let* sp' := set_type sp (TStruct (Some tag) None) in
          parse_specs n tds sp' ts'
      | TKeyword k :: ts' =>
          match basic_of_keyword k with
          | Some b => let* sp' := add_word sp b in parse_specs n tds sp' ts'
          | None => finish_specs sp ts
          end
      | TIdent x :: ts' =>
          if has_type sp then finish_specs sp ts
          else if is_typedef_name tds x then
            let* sp' := set_type sp (TNamed x) in parse_specs n tds sp' ts'
          else finish_specs sp ts
      | _ => finish_specs sp ts
      end
  end

(** The fields of a struct body, after its [{] and through its [}]. *)
with parse_fields (fuel : nat) (tds : list string) (ts : list token)
    {struct fuel} : option (list (string * ctype) * list token) :=
  match fuel with
  | O => None
  | S n =>
      match ts with
      | TPunct "}" :: r => Some ([], r)
      | _ =>
          let* (sp, r) := parse_specs n tds no_specs ts in
          match sp_storage sp with
          | Some _ => None
          | None =>
              let* (fs, r1) :=
                sep_list n
                  (not_function (parse_declarator n tds (specs_type sp)))
                  "," ";" r in
              let* (fs', r2) := parse_fields n tds r1 in
              Some ((fs ++ fs')%list, r2)
          end
      end
  end

with parse_declarator (fuel : nat) (tds : list string) (base : ctype)
    (ts : list token) {struct fuel} : option (string * ctype * list token) :=
  match fuel with
  | O => None
  | S n =>
      let (t, r) := parse_pointers base ts in
      match r with
      | TIdent x :: TPunct "[" :: TInt len :: TPunct "]" :: r' =>
          Some (x, TArray t len, r')
      | TIdent x :: TPunct "(" :: r' =>
          let* (ps, r1) := parse_params n tds r' in
          Some (x, TFunction ps t, r1)
      | TIdent x :: r' => Some (x, t, r')
      | _ => None
      end
  end

(** A parameter list, after its [(] and through its [)]. *)
with parse_params (fuel : nat) (tds : list string) (ts : list token)
    {struct fuel} : option (list (option string * ctype) * list token) :=
  match fuel with
  | O => None
  | S n =>
      match ts with
      | TPunct ")" :: r => Some ([], r)
      | TKeyword KVoid :: TPunct ")" :: r => Some ([], r)
      | _ =>
          sep_list n
            (fun ts0 =>
               let* (sp, r) := parse_specs n tds no_specs ts0 in
               match sp_storage sp with
               | Some _ => None
               | None =>
                   let (t, r1) := parse_pointers (specs_type sp) r in
                   match r1 with
                   | TIdent x :: r2 => Some (Some x, t, r2)
                   | _ => Some (None, t, r1)
                   end
               end)
            "," ")" ts
      end
  end.

Definition parse_init : parser init :=
  fun ts =>
    match ts with
    | TInt z :: r => Some (IInt z, r)
    | TPunct "-" :: TInt z :: r => Some (INeg z, r)
    | TIdent x :: r => Some (IName x, r)
    | _ => None
    end.

Definition parse_init_declarator (fuel : nat) (tds : list string)
    (sc : storage) (base : ctype) : parser (string * ctype * option init) :=
  fun ts =>
    let* (d, r) := parse_declarator fuel tds base ts in
    match r with
    | TPunct "=" :: r' =>
        match sc with
        | STypedef => None
        | _ => let* (i, r1) := parse_init r' in Some (d, Some i, r1)
        end
    | _ => Some (d, None, r)
    end.

(** The tokens of a function body, after its [{] and through the
    matching [}]. *)
Fixpoint take_body (depth : nat) (ts : list token)
  : option (list token * list token) :=
  match ts with
  | [] => None
  | TPunct "}" :: r =>
      match depth with
      | O => Some ([], r)
      | S d => let* (b, r') := take_body d r in Some (TPunct "}" :: b, r')
      end
  | TPunct "{" :: r =>
      let* (b, r') := take_body (S depth) r in Some (TPunct "{" :: b, r')
  | t :: r => let* (b, r') := take_body depth r in Some (t :: b, r')
  end.

Definition parse_external (fuel : nat) (tds : list string)
  : parser external_decl :=
  fun ts =>
    let* (sp, r) := parse_specs fuel tds no_specs ts in
    let sc := specs_storage sp in
    let base := specs_type sp in
    match r with
    | TPunct ";" :: r' => Some (EDecl (mkDecl sc base []), r')
    | _ =>
        let* (d, r1) := parse_declarator fuel tds base r in
        match snd d, r1, sc with
        | TFunction _ _, TPunct "{" :: r2, STypedef => None
        | TFunction _ _, TPunct "{" :: r2, _ =>
            let* (body, r3) := take_body 0 r2 in
            Some (EFunDef sc (fst d) (snd d) body, r3)
        | _, _, _ =>
            let* (items, r2) :=
              sep_list fuel (parse_init_declarator fuel tds sc base)
                "," ";" r in
            Some (EDecl (mkDecl sc base items), r2)
        end
    end.

Fixpoint parse_tu (fuel : nat) (tds : list string) (ts : list token)
  : option translation_unit :=
  match ts with
  | [] => Some []
  | _ :: _ =>
      match fuel with
      | O => None
      | S n =>
          let* (d, r) := parse_external (S (length ts)) tds ts in
          let* ds := parse_tu n (typedef_names d ++ tds)%list r in
          Some (d :: ds)
      end
  end.

Definition parse_translation_unit (ts : list token)
  : option translation_unit :=
  parse_tu (length ts) [] ts.

Definition parse_file (s : string) : option translation_unit :=
  let* ts := tokenize s in parse_translation_unit ts.

End Parse.

(** ** Static semantics: values of a type, and the file-scope environment *)

Module Sem.
Import Lex Syntax Parse.

(** Widths of the integer types, in bits. *)
Record data_model : Type := mkModel {
  char_bits : Z;
  short_bits : Z;
  int_bits : Z;
  long_bits : Z
}.

(** The model of the targets of the tool (and of HLSL's own [int]):
    [int] is 32 bits wide. *)
Definition int32_model : data_model := mkModel 8 16 32 32.

Definition has_word (b : basic) (ws : list basic) : bool :=
  existsb (basic_eqb b) ws.

Definition width_of (dm : data_model) (ws : list basic) : Z :=
  if has_word BChar ws then char_bits dm
  else if has_word BShort ws then short_bits dm
  else if has_word BLong ws then long_bits dm
  else int_bits dm.

(** Least and greatest value of an integer type (two's complement). *)
Definition int_range (dm : data_model) (ws : list basic) : option (Z * Z) :=
  match ws with
  | [] => None
  | _ :: _ =>
      if forallb integer_word ws then
        let w := width_of dm ws in
        if has_word BUnsigned ws then Some (0, 2 ^ w - 1)%Z
        else Some (- 2 ^ (w - 1), 2 ^ (w - 1) - 1)%Z
      else None
  end.

(** Bounds of plain [int]. *)
Definition int_lo (dm : data_model) : Z := (- 2 ^ (int_bits dm - 1))%Z.
Definition int_hi (dm : data_model) : Z := (2 ^ (int_bits dm - 1) - 1)%Z.

Inductive value : Type :=
| VInt (z : Z)
| VStruct (fs : list (string * value)).

(** [value_ok dm t v]: [v] is a value of type [t].  Integer types admit
    their whole range; a struct admits any values of its fields' types,
    in the order of the fields. *)
Fixpoint value_ok (dm : data_model) (t : ctype) (v : value) : bool :=
  match t with
  | TConst t' | TVolatile t' => value_ok dm t' v
  | TBasic ws =>
      match int_range dm ws, v with
      | Some (lo, hi), VInt z => ((lo <=? z) && (z <=? hi))%Z
      | _, _ => false
      end
  | TStruct _ (Some fs) =>
      match v with
      | VStruct vs =>
          (fix fields_ok (fs : list (string * ctype))
               (vs : list (string * value)) : bool :=
             match fs, vs with
             | [], [] => true
             | (f, ft) :: fs', (g, gv) :: vs' =>
                 (f =? g)%string && value_ok dm ft gv && fields_ok fs' vs'
             | _, _ => false
             end) fs vs
      | VInt _ => false
      end
  | _ => false
  end.

Record object : Type := mkObject {
  ob_storage : storage;
  ob_type : ctype;
  ob_value : option Z
}.

(** File-scope environment.  Typedef names, objects and functions share
    one name space; struct tags have their own. *)
Record genv : Type := mkGenv {
  ge_typedefs : list (string * ctype);
  ge_structs : list (string * list (string * ctype));
  ge_objects : list (string * object);
  ge_functions : list (string * ctype)
}.

Definition empty_genv : genv := mkGenv [] [] [] [].

Fixpoint lookup {A : Type} (x : string) (l : list (string * A)) : option A :=
  match l with
  | [] => None
  | (y, a) :: l' => if (x =? y)%string then Some a else lookup x l'
  end.

Definition is_none {A : Type} (o : option A) : bool :=
  match o with
  | None => true
  | Some _ => false
  end.

Definition name_free (ge : genv) (x : string) : bool :=
  is_none (lookup x (ge_typedefs ge)) && is_none (lookup x (ge_objects ge))
  && is_none (lookup x (ge_functions ge)).

(** Replace a typedef name by the type it stands for, under qualifiers. *)
Fixpoint resolve (ge : genv) (t : ctype) : ctype :=
  match t with
  | TNamed x =>
      match lookup x (ge_typedefs ge) with
      | Some t' => t'
      | None => t
      end
  | TStruct (Some tag) None =>
      match lookup tag (ge_structs ge) with
      | Some fs => TStruct (Some tag) (Some fs)
      | None => t
      end
  | TConst t' => TConst (resolve ge t')
  | TVolatile t' => TVolatile (resolve ge t')
  | _ => t
  end.

Definition eval_init (ge : genv) (i : init) : option Z :=
  match i with
  | IInt z => Some z
  | INeg z => Some (- z)%Z
  | IName x =>
      match lookup x (ge_objects ge) with
      | Some ob => if is_const (ob_type ob) then ob_value ob else None
      | None => None
      end
  end.

Definition add_struct (ge : genv) (t : ctype) : option genv :=
  match strip_quals t with
  | TStruct (Some tag) (Some fs) =>
      if is_none (lookup tag (ge_structs ge))
      then Some (mkGenv (ge_typedefs ge) ((tag, fs) :: ge_structs ge)
                   (ge_objects ge) (ge_functions ge))
      else None
  | _ => Some ge
  end.

Definition add_item (dm : data_model) (sc : storage) (ge : genv)
    (it : string * ctype * option init) : option genv :=
  let '(x, t, i) := it in
  if name_free ge x then
    match sc, t, i with
    | STypedef, _, None =>
        Some (mkGenv ((x, resolve ge t) :: ge_typedefs ge) (ge_structs ge)
                (ge_objects ge) (ge_functions ge))
    | STypedef, _, Some _ => None
    | _, TFunction _ _, None =>
        Some (mkGenv (ge_typedefs ge) (ge_structs ge) (ge_objects ge)
                ((x, t) :: ge_functions ge))
    | _, TFunction _ _, Some _ => None
    | _, _, None =>
        Some (mkGenv (ge_typedefs ge) (ge_structs ge)
                ((x, mkObject sc (resolve ge t) None) :: ge_objects ge)
                (ge_functions ge))
    | _, _, Some e =>
        let* v := eval_init ge e in
        if value_ok dm (resolve ge t) (VInt v)
        then Some (mkGenv (ge_typedefs ge) (ge_structs ge)
                     ((x, mkObject sc (resolve ge t) (Some v))
                        :: ge_objects ge)
                     (ge_functions ge))
        else None
    end
  else None.

Fixpoint add_items (dm : data_model) (sc : storage) (ge : genv)
    (its : list (string * ctype * option init)) : option genv :=
  match its with
  | [] => Some ge
  | it :: its' =>
      let* ge' := add_item dm sc ge it in add_items dm sc ge' its'
  end.

(** Elaboration of one external declaration; a second definition of a
    name or of a struct tag is an error. *)
Definition elab_decl (dm : data_model) (ge : genv) (d : external_decl)
  : option genv :=
  match d with
  | EDecl d =>
      let* ge1 := add_struct ge (dc_base d) in
      add_items dm (dc_storage d) ge1 (dc_items d)
  | EFunDef sc x t _ =>
      if name_free ge x
      then Some (mkGenv (ge_typedefs ge) (ge_structs ge) (ge_objects ge)
                   ((x, t) :: ge_functions ge))
      else None
  end.

Fixpoint elab_from (dm : data_model) (ge : genv) (tu : translation_unit)
  : option genv :=
  match tu with
  | [] => Some ge
  | d :: tu' => let* ge' := elab_decl dm ge d in elab_from dm ge' tu'
  end.

Definition elab (dm : data_model) (tu : translation_unit) : option genv :=
  elab_from dm empty_genv tu.

Definition elab_file (dm : data_model) (s : string) : option genv :=
  let* tu := parse_file s in elab dm tu.

(** The value bound to an object, when it has one. *)
Definition object_value (ge : genv) (x : string) : option Z :=
  match lookup x (ge_objects ge) with
  | Some ob => ob_value ob
  | None => None
  end.

(** An object whose stored value a later statement could change. *)
Definition is_mutable (ob : object) : bool := negb (is_const (ob_type ob)).

Definition occurrences (x : string) (names : list string) : nat :=
  length (filter (String.eqb x) names).

End Sem.

(** ** The header read as a translation unit *)

Module Header.
Import Text Fixture Lex Syntax Parse Sem.

(** The tokens of lines 3 to 8, in order. *)
Definition header_tokens : list token :=
  [ TKeyword KTypedef; TKeyword KStruct; TIdent "_OpaqueItem"; TPunct "{";
    TKeyword KInt; TIdent "count"; TPunct ";";
    TKeyword KInt; TIdent "flags"; TPunct ";";
    TPunct "}"; TIdent "OpaqueItem"; TPunct ";";
    TKeyword KStatic; TKeyword KConst; TKeyword KInt;
    TIdent "gOpaqueValue"; TPunct "="; TInt 7; TPunct ";" ].

(** The text of the two comments of lines 1 and 2, after their [//]. *)
Definition header_comments : list string :=
  [ " Non-HLSL helper header that should be ignored by the preprocessor.";
    " Contains C-style declarations that are not valid HLSL." ].

Definition opaque_fields : list (string * ctype) :=
  [ ("count", TBasic [BInt]); ("flags", TBasic [BInt]) ].

Definition opaque_struct : ctype :=
  TStruct (Some "_OpaqueItem") (Some opaque_fields).

(** [typedef struct _OpaqueItem { int count; int flags; } OpaqueItem;] *)
Definition opaque_item_decl : external_decl :=
  EDecl (mkDecl STypedef opaque_struct [("OpaqueItem", opaque_struct, None)]).

(** [static const int gOpaqueValue = 7;] *)
Definition opaque_value_decl : external_decl :=
  EDecl (mkDecl SStatic (TConst (TBasic [BInt]))
           [("gOpaqueValue", TConst (TBasic [BInt]), Some (IInt 7))]).

Definition header_tu : translation_unit :=
  [opaque_item_decl; opaque_value_decl].

(** What the file declares, computed from its bytes. *)
Definition file_tokens (s : string) : list token :=
  match tokenize s with
  | Some ts => ts
  | None => []
  end.

Definition file_decls (s : string) : translation_unit :=
  match parse_file s with
  | Some tu => tu
  | None => []
  end.

Definition file_typedefs (s : string) : list string :=
  concat (map typedef_names (file_decls s)).

Definition file_struct_tags (s : string) : list string :=
  concat (map struct_tags (file_decls s)).

Definition file_objects (s : string) : list (string * ctype * option init) :=
  concat (map object_items (file_decls s)).

Definition file_constants (s : string)
  : list (string * ctype * option init) :=
  filter is_constant_item (file_objects s).

Definition struct_fields (t : ctype) : option (list (string * ctype)) :=
  match strip_quals t with
  | TStruct _ fs => fs
  | _ => None
  end.

(** The type a typedef name of the file stands for. *)
Definition file_typedef (s : string) (x : string) : option ctype :=
  let* ge := elab_file int32_model s in lookup x (ge_typedefs ge).

Definition is_static_decl (d : external_decl) : bool :=
  match d with
  | EDecl d =>
      match dc_storage d with
      | STypedef | SStatic => true
      | SNone | SExtern => false
      end
  | EFunDef _ _ _ _ => false
  end.

Definition is_comment_lexeme (l : lexeme) : bool :=
  match l with
  | LComment _ => true
  | LTok _ => false
  end.

(** The environment after the first [k] declarations of a file. *)
Definition env_after (k : nat) (s : string) : option genv :=
  elab int32_model (firstn k (file_decls s)).

Definition in_int32 (z : Z) : Prop := (- 2 ^ 31 <= z < 2 ^ 31)%Z.

Definition opaque_item_value (c f : Z) : value :=
  VStruct [("count", VInt c); ("flags", VInt f)].

End Header.

(** ** The header inside a larger text

    What an including file sees: the header's bytes with other text around
    them, its declarations with other declarations after them. *)

Module Inclusion.
Import Text Fixture Lex Syntax Parse Sem Header.

(** The lexer run over a piece of text, keeping the state it ends in. *)
Fixpoint lex_run (st : lstate) (s : string)
  : option (list lexeme * lstate) :=
  match s with
  | EmptyString => Some ([], st)
  | String c s' =>
      let* (out, st1) := step st c in
      let* (out', st2) := lex_run st1 s' in
      Some ((out ++ out')%list, st2)
  end.

Definition header_lexemes : list lexeme :=
  (map LComment header_comments ++ map LTok header_tokens)%list.

(** A line comment whose last byte is a backslash takes the next line in. *)
Definition spliced (acc : list ascii) : bool :=
  match acc with
  | "\"%char :: _ => true
  | _ => false
  end.

(** Text that a [//] comment can hold on one line. *)
Definition comment_text_ok (c : string) : bool :=
  negb (occurs LF c) && negb (spliced (rev (list_ascii_of_string c))).

Definition with_comments (c1 c2 body : string) : string :=
  "//" ++ c1 ++ nl ++ "//" ++ c2 ++ nl ++ body.

(** The tokens of the typedef (lines 3 to 6) and of the constant (line 8). *)
Definition opaque_item_tokens : list token :=
  [ TKeyword KTypedef; TKeyword KStruct; TIdent "_OpaqueItem"; TPunct "{";
    TKeyword KInt; TIdent "count"; TPunct ";";
    TKeyword KInt; TIdent "flags"; TPunct ";";
    TPunct "}"; TIdent "OpaqueItem"; TPunct ";" ].

Definition opaque_value_tokens : list token :=
  [ TKeyword KStatic; TKeyword KConst; TKeyword KInt;
    TIdent "gOpaqueValue"; TPunct "="; TInt 7; TPunct ";" ].

(** A parser that never returns more tokens than it was given. *)
Definition shrinks {A : Type} (p : parser A) : Prop :=
  forall ts x r, p ts = Some (x, r) -> (length r <= length ts)%nat.

Definition all_shrink (n : nat) : Prop :=
  (forall tds sp, shrinks (parse_specs n tds sp)) /\
  (forall tds, shrinks (parse_fields n tds)) /\
  (forall tds base, shrinks (parse_declarator n tds base)) /\
  (forall tds, shrinks (parse_params n tds)).

(** The declarations of a text that follows the header: [OpaqueItem] is a
    typedef name there. *)
Definition parse_after_header (ts : list token) : option translation_unit :=
  parse_tu (length ts) ["OpaqueItem"] ts.

(** Names a declaration puts in the name space of ordinary identifiers. *)
Definition declared_names (d : external_decl) : list string :=
  match d with
  | EDecl d => map item_name (dc_items d)
  | EFunDef _ x _ _ => [x]
  end.

Definition opaque_value_object : object :=
  mkObject SStatic (TConst (TBasic [BInt])) (Some 7%Z).

(** The environment the header elaborates to. *)
Definition header_env : genv :=
  mkGenv [("OpaqueItem", opaque_struct)]
    [("_OpaqueItem", opaque_fields)]
    [("gOpaqueValue", opaque_value_object)]
    [].

(** [ge'] binds every name that [ge] binds, to the same thing. *)
Definition env_extends (ge ge' : genv) : Prop :=
  (forall x t, lookup x (ge_typedefs ge) = Some t ->
               lookup x (ge_typedefs ge') = Some t) /\
  (forall x fs, lookup x (ge_structs ge) = Some fs ->
                lookup x (ge_structs ge') = Some fs) /\
  (forall x ob, lookup x (ge_objects ge) = Some ob ->
                lookup x (ge_objects ge') = Some ob) /\
  (forall x t, lookup x (ge_functions ge) = Some t ->
               lookup x (ge_functions ge') = Some t).

(** What a later declaration must not do after the header: declare one of
    its two ordinary names again, or define its struct tag again. *)
Definition redeclares_header (d : external_decl) : Prop :=
  In "gOpaqueValue" (declared_names d) \/
  In "OpaqueItem" (declared_names d) \/
  In "_OpaqueItem" (struct_tags d).

End Inclusion.

(** * Properties *)

Import Text Fixture Lex Syntax Parse Sem Header.

(** ** Lines and bytes in general *)

Lemma filter_none {A : Type} (f : A -> bool) (l : list A) :
  (forall x, In x l -> f x = false) -> filter f l = [].
Proof.
  induction l as [|a l IH]; intros H; simpl; [reflexivity|].
  rewrite (H a (or_introl eq_refl)).
  apply IH. intros x Hx. apply H. right. exact Hx.
Qed.

Lemma split_lines_occurs (c : ascii) (s : string) :
  forall l, In l (split_lines s) -> occurs c l = true -> occurs c s = true.
Proof.
  induction s as [|a s IH]; simpl; intros l Hin Hocc; [contradiction|].
  destruct (a =? LF)%char.
  - destruct Hin as [<-|Hin]; [discriminate|].
    rewrite (IH l Hin Hocc). apply orb_true_r.
  - destruct (split_lines s) as [|l0 ls].
    + destruct Hin as [<-|[]]. simpl in Hocc.
      rewrite orb_false_r in Hocc. rewrite Hocc. reflexivity.
    + destruct Hin as [<-|Hin].
      * simpl in Hocc. apply orb_true_iff in Hocc as [->|Hocc];
          [reflexivity|].
        rewrite (IH l0 (or_introl eq_refl) Hocc). apply orb_true_r.
      * rewrite (IH l (or_intror Hin) Hocc). apply orb_true_r.
Qed.

Lemma skip_blanks_occurs (c : ascii) (l : string) :
  occurs c (skip_blanks l) = true -> occurs c l = true.
Proof.
  induction l as [|a l IH]; simpl; [trivial|].
  destruct (is_blank a); simpl; intros H; [|exact H].
  rewrite (IH H). apply orb_true_r.
Qed.

Lemma starts_with_occurs (c : ascii) (s : string) :
  starts_with c s = true -> occurs c s = true.
Proof.
  destruct s as [|d s]; simpl; [discriminate|].
  intros ->. reflexivity.
Qed.

(** A text without the byte [#] has no directive line. *)
Lemma no_hash_no_directives (s : string) :
  occurs "#" s = false -> directive_lines s = [].
Proof.
  intros Hs. unfold directive_lines. apply filter_none. intros l Hl.
  destruct (is_directive_line l) eqn:Hd; [|reflexivity].
  unfold is_directive_line in Hd.
  apply starts_with_occurs, skip_blanks_occurs in Hd.
  rewrite (split_lines_occurs _ _ _ Hl Hd) in Hs. discriminate.
Qed.

(** ** What the lexer and the parser make of the header *)

Lemma header_bytes : String.length opaque_header_h = 236%nat.
Proof. reflexivity. Qed.

Lemma header_lines :
  split_lines opaque_header_h =
  [line1; line2; line3; line4; line5; line6; line7; line8].
Proof. reflexivity. Qed.

Lemma header_lex :
  lex opaque_header_h =
  Some (map LComment header_comments ++ map LTok header_tokens)%list.
Proof. vm_compute. reflexivity. Qed.

Lemma header_tokenize : tokenize opaque_header_h = Some header_tokens.
Proof. vm_compute. reflexivity. Qed.

Lemma header_parse : parse_file opaque_header_h = Some header_tu.
Proof. vm_compute. reflexivity. Qed.

Lemma header_decls : file_decls opaque_header_h = header_tu.
Proof. unfold file_decls. rewrite header_parse. reflexivity. Qed.

Lemma header_file_tokens : file_tokens opaque_header_h = header_tokens.
Proof. unfold file_tokens. rewrite header_tokenize. reflexivity. Qed.

Lemma header_differs_from_block : opaque_header_h <> spec_section6_block.
Proof.
  intros H. apply (f_equal String.length) in H.
  vm_compute in H. discriminate.
Qed.

Lemma header_splits : opaque_header_h = comment_header ++ spec_section6_block.
Proof. reflexivity. Qed.

(** ** The file-scope environment only grows *)

Section Elaboration.
Variable dm : data_model.

Lemma add_struct_objects (ge ge' : genv) (t : ctype) :
  add_struct ge t = Some ge' -> ge_objects ge' = ge_objects ge.
Proof.
  unfold add_struct.
  destruct (strip_quals t) as [| [tag|] [fs|] | | | | | |];
    try (intros [= <-]; reflexivity).
  destruct (is_none (lookup tag (ge_structs ge)));
    intros [= <-]; reflexivity.
Qed.

Lemma add_item_keeps (sc : storage) (ge ge' : genv)
    (it : string * ctype * option init) (x : string) (ob : object) :
  add_item dm sc ge it = Some ge' ->
  lookup x (ge_objects ge) = Some ob ->
  lookup x (ge_objects ge') = Some ob.
Proof.
  destruct it as [[y t] i]. unfold add_item. intros H Hx.
  destruct (name_free ge y) eqn:Hfree; [|discriminate].
  assert (Hxy : (x =? y)%string = false).
  { destruct (String.eqb_spec x y) as [->|]; [|reflexivity].
    unfold name_free in Hfree. rewrite Hx in Hfree. simpl in Hfree.
    rewrite andb_false_r in Hfree. discriminate. }
  destruct i as [e|].
  - destruct (eval_init ge e) as [v|] eqn:He;
      [destruct (value_ok dm (resolve ge t) (VInt v)) eqn:Hv|];
      destruct sc, t; try discriminate;
      injection H as <-; simpl; rewrite Hxy; exact Hx.
  - destruct sc, t; injection H as <-; simpl; rewrite ?Hxy; exact Hx.
Qed.

Lemma add_items_keep (sc : storage)
    (its : list (string * ctype * option init)) :
  forall (ge ge' : genv) (x : string) (ob : object),
    add_items dm sc ge its = Some ge' ->
    lookup x (ge_objects ge) = Some ob ->
    lookup x (ge_objects ge') = Some ob.
Proof.
  induction its as [|it its IH]; simpl; intros ge ge' x ob H Hx.
  - injection H as <-. exact Hx.
  - destruct (add_item dm sc ge it) as [ge1|] eqn:H1; [|discriminate].
    apply (IH ge1 ge' x ob H). apply (add_item_keeps _ _ _ _ _ _ H1 Hx).
Qed.

Lemma elab_decl_keeps (ge ge' : genv) (d : external_decl)
    (x : string) (ob : object) :
  elab_decl dm ge d = Some ge' ->
  lookup x (ge_objects ge) = Some ob ->
  lookup x (ge_objects ge') = Some ob.
Proof.
  destruct d as [d|sc f t body]; simpl; intros H Hx.
  - destruct (add_struct ge (dc_base d)) as [ge1|] eqn:H1; [|discriminate].
    apply (add_items_keep _ _ _ _ _ _ H).
    rewrite (add_struct_objects _ _ _ H1). exact Hx.
  - destruct (name_free ge f); [|discriminate].
    injection H as <-. exact Hx.
Qed.

(** Once an object is bound, every later declaration leaves its type and
    its value as they are. *)
Lemma elab_from_keeps (tu : translation_unit) :
  forall (ge ge' : genv) (x : string) (ob : object),
    elab_from dm ge tu = Some ge' ->
    lookup x (ge_objects ge) = Some ob ->
    lookup x (ge_objects ge') = Some ob.
Proof.
  induction tu as [|d tu IH]; simpl; intros ge ge' x ob H Hx.
  - injection H as <-. exact Hx.
  - destruct (elab_decl dm ge d) as [ge1|] eqn:H1; [|discriminate].
    apply (IH ge1 ge' x ob H). apply (elab_decl_keeps _ _ _ _ _ H1 Hx).
Qed.

Lemma elab_from_app (tu1 tu2 : translation_unit) :
  forall ge : genv,
    elab_from dm ge (tu1 ++ tu2)%list =
    match elab_from dm ge tu1 with
    | Some ge1 => elab_from dm ge1 tu2
    | None => None
    end.
Proof.
  induction tu1 as [|d tu1 IH]; simpl; intros ge; [reflexivity|].
  destruct (elab_decl dm ge d); [apply IH|reflexivity].
Qed.

(** ** Values of a struct of two [int] fields *)

Lemma int_range_int : int_range dm [BInt] = Some (int_lo dm, int_hi dm).
Proof. reflexivity. Qed.

Lemma int_value_ok (z : Z) :
  value_ok dm (TBasic [BInt]) (VInt z) = true <->
  (int_lo dm <= z <= int_hi dm)%Z.
Proof.
  cbn [value_ok]. rewrite int_range_int, andb_true_iff, !Z.leb_le.
  reflexivity.
Qed.

Lemma value_ok_struct2 (tag : option string) (f1 f2 : string)
    (t1 t2 : ctype) (vs : list (string * value)) :
  value_ok dm (TStruct tag (Some [(f1, t1); (f2, t2)])) (VStruct vs) =
  match vs with
  | [(g1, v1); (g2, v2)] =>
      (f1 =? g1)%string && value_ok dm t1 v1 &&
      ((f2 =? g2)%string && value_ok dm t2 v2)
  | _ => false
  end.
Proof.
  destruct vs as [|[g1 v1] [|[g2 v2] [|w vs]]]; simpl;
    rewrite ?andb_false_r, ?andb_true_r; reflexivity.
Qed.

(** The values of a struct of two [int] fields are exactly the pairs of
    values of [int]: nothing relates or restricts the two fields. *)
Lemma two_int_struct_values (tag : option string) (f1 f2 : string)
    (v : value) :
  value_ok dm (TStruct tag (Some [(f1, TBasic [BInt]); (f2, TBasic [BInt])]))
    v = true <->
  exists a b : Z,
    v = VStruct [(f1, VInt a); (f2, VInt b)] /\
    (int_lo dm <= a <= int_hi dm)%Z /\ (int_lo dm <= b <= int_hi dm)%Z.
Proof.
  split.
  - destruct v as [z|vs]; [discriminate|].
    rewrite value_ok_struct2.
    destruct vs as [|[g1 v1] [|[g2 v2] [|w vs]]]; try discriminate.
    rewrite !andb_true_iff. intros [[Hg1 Hv1] [Hg2 Hv2]].
    apply String.eqb_eq in Hg1, Hg2. subst g1 g2.
    destruct v1 as [a|]; [|simpl in Hv1; discriminate].
    destruct v2 as [b|]; [|simpl in Hv2; discriminate].
    exists a, b. split; [reflexivity|].
    split; apply int_value_ok; assumption.
  - intros (a & b & -> & Ha & Hb).
    rewrite value_ok_struct2, !String.eqb_refl.
    apply int_value_ok in Ha, Hb. rewrite Ha, Hb. reflexivity.
Qed.

End Elaboration.

(** ** The header under further declarations *)

Lemma header_elab :
  elab int32_model header_tu =
  Some (mkGenv [("OpaqueItem", opaque_struct)]
          [("_OpaqueItem", opaque_fields)]
          [("gOpaqueValue",
            mkObject SStatic (TConst (TBasic [BInt])) (Some 7%Z))]
          []).
Proof. reflexivity. Qed.

(** Whatever file-scope declarations follow the header (those of a file
    that includes it), [gOpaqueValue] keeps its value in the environment
    they elaborate to. *)
Lemma header_constant_survives (more : translation_unit) (ge : genv) :
  elab int32_model (header_tu ++ more)%list = Some ge ->
  object_value ge "gOpaqueValue" = Some 7%Z.
Proof.
  unfold elab. rewrite elab_from_app.
  change (elab_from int32_model empty_genv header_tu)
    with (elab int32_model header_tu).
  rewrite header_elab. intros H.
  unfold object_value.
  rewrite (elab_from_keeps _ _ _ _ "gOpaqueValue"
             (mkObject SStatic (TConst (TBasic [BInt])) (Some 7%Z)) H);
    reflexivity.
Qed.

(** ** The claims *)

(** C1 (as stated, refuted): the file's bytes are not the six-line block of
    section 6 of the specification; they are not that block followed by a
    final LF either. *)
Lemma C1_header_is_not_the_block :
  ~ (opaque_header_h = spec_section6_block) /\
  ~ (opaque_header_h = spec_section6_block ++ nl).
Proof.
  split; [exact header_differs_from_block|].
  intros H. apply (f_equal String.length) in H.
  vm_compute in H. discriminate.
Qed.

(** C1 (amended): the file's bytes are the two comment lines, each closed
    by LF, followed by the six-line block of section 6; nothing follows the
    block, not even a final LF. *)
Theorem C1_header_is_comments_then_block :
  opaque_header_h = line1 ++ nl ++ line2 ++ nl ++ spec_section6_block /\
  String.length opaque_header_h =
    (String.length comment_header + String.length spec_section6_block)%nat /\
  String.length comment_header = 128%nat /\
  String.length spec_section6_block = 108%nat.
Proof. repeat split. Qed.

(** C9: lines 1 and 2 are [//] comment lines with the quoted texts, they
    come before every declaration, and the file is the six-line block of
    section 6 with a non-empty text in front of it, hence not equal to
    it. *)
Theorem C9_two_comment_lines_precede_block :
  nth_error (split_lines opaque_header_h) 0 =
    Some ("// " ++
          "Non-HLSL helper header that should be ignored by the preprocessor.")
  /\ nth_error (split_lines opaque_header_h) 1 =
    Some ("// " ++ "Contains C-style declarations that are not valid HLSL.")
  /\ map is_line_comment (split_lines opaque_header_h) =
       [true; true; false; false; false; false; false; false]
  /\ option_map (firstn 2) (lex opaque_header_h) =
       Some (map LComment header_comments)
  /\ option_map (fun ls => comments_of (skipn 2 ls)) (lex opaque_header_h) =
       Some []
  /\ opaque_header_h = comment_header ++ spec_section6_block
  /\ comment_header <> ""
  /\ opaque_header_h <> spec_section6_block
  /\ (String.length spec_section6_block < String.length opaque_header_h)%nat.
Proof.
  repeat split; try (vm_compute; reflexivity).
  - discriminate.
  - exact header_differs_from_block.
  - vm_compute. lia.
Qed.

(** C10: no line of the file begins with [#], also when leading blanks are
    skipped; the byte [#] does not occur in the file at all, so the file
    has no directive line and no [#] token. *)
Theorem C10_no_preprocessor_directive :
  Forall (fun l => starts_with "#" l = false) (split_lines opaque_header_h)
  /\ Forall (fun l => is_directive_line l = false)
       (split_lines opaque_header_h)
  /\ occurs "#" opaque_header_h = false
  /\ directive_lines opaque_header_h = []
  /\ count_token (TPunct "#") (file_tokens opaque_header_h) = 0%nat.
Proof.
  assert (Hno : occurs "#" opaque_header_h = false) by reflexivity.
  split; [|split; [|split; [|split]]].
  - rewrite header_lines. repeat constructor.
  - apply Forall_forall. intros l Hl.
    destruct (is_directive_line l) eqn:Hd; [|reflexivity].
    apply starts_with_occurs, skip_blanks_occurs in Hd.
    rewrite (split_lines_occurs _ _ _ Hl Hd) in Hno. discriminate.
  - exact Hno.
  - apply no_hash_no_directives. exact Hno.
  - rewrite header_file_tokens. reflexivity.
Qed.

(** C2: the file has eight lines (seven LF bytes and an unterminated last
    line), and its tokens parse, with none left over, as exactly two
    file-scope declarations: a struct type declaration followed by a
    constant declaration. *)
Theorem C2_eight_lines_two_declarations :
  length (split_lines opaque_header_h) = 8%nat
  /\ count_char LF opaque_header_h = 7%nat
  /\ parse_file opaque_header_h = Some (file_decls opaque_header_h)
  /\ length (file_decls opaque_header_h) = 2%nat
  /\ map kind_of (file_decls opaque_header_h) = [KindStructType; KindConstant]
  /\ length (filter (fun d => kind_eqb (kind_of d) KindStructType)
               (file_decls opaque_header_h)) = 1%nat
  /\ length (filter (fun d => kind_eqb (kind_of d) KindConstant)
               (file_decls opaque_header_h)) = 1%nat.
Proof.
  rewrite header_decls, header_parse, header_lines.
  repeat split.
Qed.

(** C3: the struct declared in the file has the tag [_OpaqueItem] and the
    typedef name [OpaqueItem]; it is the only struct and the only typedef
    of the file; it has exactly two fields, [count] and [flags], and both
    have an integer type. *)
Theorem C3_struct_has_two_integer_fields :
  nth_error (file_decls opaque_header_h) 0 =
    Some (EDecl (mkDecl STypedef
                   (TStruct (Some "_OpaqueItem") (Some opaque_fields))
                   [("OpaqueItem",
                     TStruct (Some "_OpaqueItem") (Some opaque_fields),
                     None)]))
  /\ file_struct_tags opaque_header_h = ["_OpaqueItem"]
  /\ file_typedefs opaque_header_h = ["OpaqueItem"]
  /\ option_map struct_fields (file_typedef opaque_header_h "OpaqueItem") =
       Some (Some opaque_fields)
  /\ length opaque_fields = 2%nat
  /\ map fst opaque_fields = ["count"; "flags"]
  /\ forallb (fun f => is_integer_type (snd f)) opaque_fields = true.
Proof.
  unfold file_struct_tags, file_typedefs. rewrite header_decls.
  repeat split.
Qed.

(** C4: the file declares exactly one object, [gOpaqueValue]; it is a
    constant: const-qualified, of integer type, initialised with 7. *)
Theorem C4_one_const_integer_constant :
  file_constants opaque_header_h =
    [("gOpaqueValue", TConst (TBasic [BInt]), Some (IInt 7))]
  /\ file_objects opaque_header_h = file_constants opaque_header_h
  /\ length (file_constants opaque_header_h) = 1%nat
  /\ forallb (fun it => is_const (item_type it) &&
                        is_integer_type (item_type it))
       (file_constants opaque_header_h) = true
  /\ option_map ge_objects (elab_file int32_model opaque_header_h) =
       Some [("gOpaqueValue",
              mkObject SStatic (TConst (TBasic [BInt])) (Some 7%Z))].
Proof.
  unfold file_constants, file_objects, elab_file.
  rewrite header_decls, header_parse.
  repeat split.
Qed.

(** C5: the names [OpaqueItem] and [_OpaqueItem] each occur once among the
    tokens of the file, in the typedef that declares them; no type of a
    variable, parameter, field or function, and no function body, refers to
    either of them. *)
Theorem C5_opaque_item_never_used :
  count_token (TIdent "OpaqueItem") (file_tokens opaque_header_h) = 1%nat
  /\ count_token (TIdent "_OpaqueItem") (file_tokens opaque_header_h) = 1%nat
  /\ file_typedefs opaque_header_h = ["OpaqueItem"]
  /\ file_struct_tags opaque_header_h = ["_OpaqueItem"]
  /\ tu_refs "OpaqueItem" (file_decls opaque_header_h) = 0%nat
  /\ tu_refs "_OpaqueItem" (file_decls opaque_header_h) = 0%nat
  /\ map (fun it => type_refs "OpaqueItem" (item_type it) +
                    type_refs "_OpaqueItem" (item_type it))%nat
       (file_objects opaque_header_h) = [0%nat]
  /\ map (fun f => type_refs "OpaqueItem" (snd f) +
                   type_refs "_OpaqueItem" (snd f))%nat
       opaque_fields = [0%nat; 0%nat].
Proof.
  unfold file_typedefs, file_struct_tags, file_objects.
  rewrite header_decls, header_file_tokens.
  repeat split.
Qed.

(** C6: the fields [count] and [flags] have the type [int], whose values
    under the 32-bit model are those from -2^31 to 2^31-1; any two such
    values make a value of the struct type, so the file puts no constraint
    on either field. *)
Theorem C6_fields_admit_every_int32 (c f : Z) :
  in_int32 c -> in_int32 f ->
  exists t : ctype,
    file_typedef opaque_header_h "OpaqueItem" = Some t
    /\ struct_fields t =
         Some [("count", TBasic [BInt]); ("flags", TBasic [BInt])]
    /\ int_bits int32_model = 32%Z
    /\ int_range int32_model [BInt] = Some (- 2 ^ 31, 2 ^ 31 - 1)%Z
    /\ value_ok int32_model t (opaque_item_value c f) = true.
Proof.
  unfold in_int32. intros Hc Hf. exists opaque_struct.
  split; [vm_compute; reflexivity|].
  split; [reflexivity|]. split; [reflexivity|]. split; [reflexivity|].
  apply two_int_struct_values. exists c, f.
  split; [reflexivity|].
  change (int_lo int32_model) with (- 2 ^ 31)%Z.
  change (int_hi int32_model) with (2 ^ 31 - 1)%Z.
  lia.
Qed.

(** C6 at the two ends of the range: [count] = -2^31 and [flags] = 2^31-1. *)
Lemma C6_fields_admit_every_int32_witness :
  in_int32 (- 2 ^ 31) /\ in_int32 (2 ^ 31 - 1) /\
  exists t : ctype,
    file_typedef opaque_header_h "OpaqueItem" = Some t
    /\ struct_fields t =
         Some [("count", TBasic [BInt]); ("flags", TBasic [BInt])]
    /\ int_bits int32_model = 32%Z
    /\ int_range int32_model [BInt] = Some (- 2 ^ 31, 2 ^ 31 - 1)%Z
    /\ value_ok int32_model t
         (opaque_item_value (- 2 ^ 31) (2 ^ 31 - 1)) = true.
Proof.
  assert (Hlo : in_int32 (- 2 ^ 31)) by (unfold in_int32; lia).
  assert (Hhi : in_int32 (2 ^ 31 - 1)) by (unfold in_int32; lia).
  split; [exact Hlo|]. split; [exact Hhi|].
  exact (C6_fields_admit_every_int32 (- 2 ^ 31) (2 ^ 31 - 1) Hlo Hhi).
Defined.

(** C7: the typedef name, the struct tag and the constant are each declared
    once and named nowhere else; the file has no function body, so no
    statement or expression that could assign to them, and its only [=] is
    the initializer; [gOpaqueValue] is const-qualified, unbound before its
    declaration and bound to 7 after it, at every point of the file. *)
Theorem C7_declared_once_never_changed :
  occurrences "OpaqueItem" (file_typedefs opaque_header_h) = 1%nat
  /\ occurrences "_OpaqueItem" (file_struct_tags opaque_header_h) = 1%nat
  /\ occurrences "gOpaqueValue"
       (map item_name (file_objects opaque_header_h)) = 1%nat
  /\ count_token (TIdent "gOpaqueValue") (file_tokens opaque_header_h) = 1%nat
  /\ count_token (TIdent "OpaqueItem") (file_tokens opaque_header_h) = 1%nat
  /\ existsb is_fundef (file_decls opaque_header_h) = false
  /\ count_token (TPunct "=") (file_tokens opaque_header_h) = 1%nat
  /\ map (fun it => is_const (item_type it)) (file_objects opaque_header_h) =
       [true]
  /\ (forall k : nat,
        option_map (fun ge => object_value ge "gOpaqueValue")
          (env_after k opaque_header_h) =
        Some (if (2 <=? k)%nat then Some 7%Z else None))
  /\ (forall k : nat,
        option_map (fun ge => is_none (lookup "OpaqueItem" (ge_typedefs ge)))
          (env_after k opaque_header_h) =
        Some (k =? 0)%nat).
Proof.
  unfold file_typedefs, file_struct_tags, file_objects, env_after.
  rewrite header_decls, header_file_tokens.
  repeat split.
  - destruct k as [|[|k]]; [reflexivity..|].
    cbn [firstn header_tu]. rewrite firstn_nil. reflexivity.
  - destruct k as [|[|k]]; [reflexivity..|].
    cbn [firstn header_tu]. rewrite firstn_nil. reflexivity.
Qed.

(** C8: the file has no function definition, no control-flow keyword and no
    function at all, hence no statement; its only object is const, so it
    has no mutable state; its lexemes are the two comments followed by the
    tokens of the two declarations, each of which is a typedef or has
    static storage. *)
Theorem C8_comments_and_static_declarations_only :
  existsb is_fundef (file_decls opaque_header_h) = false
  /\ existsb is_control_token (file_tokens opaque_header_h) = false
  /\ option_map ge_functions (elab_file int32_model opaque_header_h) = Some []
  /\ option_map
       (fun ge => existsb (fun p => is_mutable (snd p)) (ge_objects ge))
       (elab_file int32_model opaque_header_h) = Some false
  /\ lex opaque_header_h =
       Some (map LComment header_comments ++
             map LTok (file_tokens opaque_header_h))%list
  /\ parse_translation_unit (file_tokens opaque_header_h) =
       Some (file_decls opaque_header_h)
  /\ forallb is_static_decl (file_decls opaque_header_h) = true
  /\ length (file_decls opaque_header_h) = 2%nat.
Proof.
  unfold elab_file.
  rewrite header_decls, header_file_tokens, header_parse, header_lex.
  repeat split.
Qed.


(** * The header in context *)

Import Inclusion.

(** ** Lexing a text in two pieces *)

Lemma lex_from_run (h : string) :
  forall (st : lstate) (s : string),
    lex_from st (h ++ s) =
    match lex_run st h with
    | Some (out, st') => option_map (app out) (lex_from st' s)
    | None => None
    end.
Proof.
  induction h as [|c h IH]; intros st s; cbn [append lex_run lex_from].
  - destruct (lex_from st s); reflexivity.
  - destruct (step st c) as [[out st1]|]; [|reflexivity].
    rewrite IH. destruct (lex_run st1 h) as [[out' st2]|]; [|reflexivity].
    destruct (lex_from st2 s) as [ls|]; cbn [option_map]; [|reflexivity].
    rewrite app_assoc. reflexivity.
Qed.

Lemma header_lex_run :
  lex_run SDefault opaque_header_h = Some (header_lexemes, SDefault).
Proof. vm_compute. reflexivity. Qed.

Lemma tokens_of_app (l1 l2 : list lexeme) :
  tokens_of (l1 ++ l2) = (tokens_of l1 ++ tokens_of l2)%list.
Proof.
  induction l1 as [|[t|c] l1 IH]; cbn [tokens_of app]; rewrite ?IH;
    reflexivity.
Qed.

Lemma comments_of_app (l1 l2 : list lexeme) :
  comments_of (l1 ++ l2) = (comments_of l1 ++ comments_of l2)%list.
Proof.
  induction l1 as [|[t|c] l1 IH]; cbn [comments_of app]; rewrite ?IH;
    reflexivity.
Qed.

(** ** Line comments *)

Lemma step_line_comment_lf (acc : list ascii) :
  step (SLineComment acc) LF =
  if spliced acc then Some ([], SLineComment (LF :: acc))
  else Some ([LComment (text_of acc)], SDefault).
Proof.
  destruct acc as [|[[] [] [] [] [] [] [] []] acc]; reflexivity.
Qed.

Lemma step_line_comment_other (acc : list ascii) (c : ascii) :
  (c =? LF)%char = false ->
  step (SLineComment acc) c = Some ([], SLineComment (c :: acc)).
Proof. intros H. cbn [step]. rewrite H. reflexivity. Qed.

(** A [//] comment runs to the first LF that no backslash precedes, and
    leaves the lexer in its default state. *)
Lemma lex_line_comment (c : string) :
  forall (acc : list ascii) (rest : string),
    occurs LF c = false ->
    spliced (rev (list_ascii_of_string c) ++ acc) = false ->
    lex_from (SLineComment acc) (c ++ String LF rest) =
    option_map
      (cons (LComment (text_of (rev (list_ascii_of_string c) ++ acc))))
      (lex_from SDefault rest).
Proof.
  induction c as [|a c IH]; intros acc rest Hlf Hsp.
  - cbn [append lex_from list_ascii_of_string rev app] in *.
    rewrite step_line_comment_lf, Hsp.
    destruct (lex_from SDefault rest); reflexivity.
  - cbn [occurs] in Hlf. apply orb_false_iff in Hlf as [Ha Hc].
    rewrite Ascii.eqb_sym in Ha.
    cbn [append lex_from list_ascii_of_string rev] in *.
    rewrite (step_line_comment_other _ _ Ha).
    rewrite <- app_assoc in Hsp |- *. cbn [app] in Hsp |- *.
    rewrite (IH (a :: acc) rest Hc Hsp).
    destruct (lex_from SDefault rest); reflexivity.
Qed.

Lemma text_of_rev (c : string) :
  text_of (rev (list_ascii_of_string c) ++ []) = c.
Proof.
  unfold text_of. rewrite app_nil_r, rev_involutive.
  apply string_of_list_ascii_of_string.
Qed.

Lemma lex_leading_comment (c rest : string) :
  comment_text_ok c = true ->
  lex ("//" ++ c ++ nl ++ rest) = option_map (cons (LComment c)) (lex rest).
Proof.
  unfold comment_text_ok. rewrite andb_true_iff, !negb_true_iff.
  intros [Hlf Hsp]. unfold lex.
  rewrite (lex_from_run "//" SDefault).
  change (lex_run SDefault "//") with (Some (@nil lexeme, SLineComment [])).
  cbv beta iota.
  change (c ++ nl ++ rest) with (c ++ String LF rest).
  rewrite lex_line_comment; [|exact Hlf|rewrite app_nil_r; exact Hsp].
  rewrite text_of_rev.
  destruct (lex_from SDefault rest); reflexivity.
Qed.

(** ** The parsers consume their input *)

Ltac break_hyp H :=
  repeat match type of H with
         | context [match ?x with _ => _ end] =>
             destruct x eqn:?; try discriminate H
         end.

Lemma parse_pointers_shrinks (ts : list token) :
  forall t t' r, parse_pointers t ts = (t', r) -> (length r <= length ts)%nat.
Proof.
  induction ts as [|a ts IH]; intros t t' r H; cbn [parse_pointers] in H.
  - injection H as _ <-. apply le_n.
  - break_hyp H;
      try (injection H as _ <-; apply le_n);
      apply IH in H; cbn [length]; lia.
Qed.

Lemma sep_list_shrinks {A : Type} (item : parser A) (sep term : ascii) :
  shrinks item ->
  forall fuel ts xs r,
    sep_list fuel item sep term ts = Some (xs, r) ->
    (length r < length ts)%nat.
Proof.
  intros Hitem. induction fuel as [|n IH]; intros ts xs r H;
    cbn [sep_list] in H; [discriminate|].
  destruct (item ts) as [[x r0]|] eqn:Hi; [|discriminate].
  apply Hitem in Hi.
  destruct r0 as [|[k|y|z|c] r1]; try discriminate.
  destruct (c =? sep)%char.
  - destruct (sep_list n item sep term r1) as [[xs' r2]|] eqn:Hs;
      [|discriminate].
    injection H as _ <-. apply IH in Hs. cbn [length] in Hi. lia.
  - destruct (c =? term)%char; [|discriminate].
    injection H as _ <-. cbn [length] in Hi. lia.
Qed.

Lemma take_body_shrinks (ts : list token) :
  forall depth b r, take_body depth ts = Some (b, r) ->
                    (length r < length ts)%nat.
Proof.
  induction ts as [|a ts IH]; intros depth b r H; cbn [take_body] in H;
    [discriminate|].
  break_hyp H; injection H as _ <-; cbn [length];
    try lia;
    repeat match goal with
           | E : take_body _ ts = Some _ |- _ => apply IH in E
           end; lia.
Qed.

Lemma not_function_shrinks {A : Type} (p : parser (A * ctype)) :
  shrinks p -> shrinks (not_function p).
Proof.
  intros Hp ts x r H. unfold not_function in H.
  destruct (p ts) as [[d r0]|] eqn:E; [|discriminate].
  destruct (is_function_type (snd d)); [discriminate|].
  injection H as _ <-. apply (Hp _ _ _ E).
Qed.

Lemma finish_specs_shrinks (sp : specs) : shrinks (finish_specs sp).
Proof.
  intros ts x r H. unfold finish_specs in H.
  destruct (has_type sp); [|discriminate]. injection H as _ <-. apply le_n.
Qed.

(** By induction on the fuel, for the four parsers at once. *)
Lemma parsers_shrink (n : nat) : all_shrink n.
Proof.
  induction n as [|n (IHs & IHf & IHd & IHp)].
  - repeat split; intros; intros ts x r H; discriminate H.
  - split; [|split; [|split]].
    + intros tds sp ts x r H. cbn [parse_specs] in H.
      break_hyp H;
        repeat match goal with
          | E : parse_specs n _ _ _ = Some _ |- _ => apply IHs in E
          | E : parse_fields n _ _ = Some _ |- _ => apply IHf in E
          | E : finish_specs _ _ = Some _ |- _ =>
              apply finish_specs_shrinks in E
          end;
        cbn [length] in *; try lia.
      all: try (apply finish_specs_shrinks in H; cbn [length] in *; lia).
      all: try (apply IHs in H; cbn [length] in *; lia).
    + intros tds ts x r H. cbn [parse_fields] in H.
      assert (Hbody :
        forall ts0,
          (let* (sp, r0) := parse_specs n tds no_specs ts0 in
           match sp_storage sp with
           | Some _ => None
           | None =>
               let* (fs, r1) :=
                 sep_list n
                   (not_function (parse_declarator n tds (specs_type sp)))
                   "," ";" r0 in
               let* (fs', r2) := parse_fields n tds r1 in
               Some ((fs ++ fs')%list, r2)
           end) = Some (x, r) -> (length r <= length ts0)%nat).
      { intros ts0 H0.
        destruct (parse_specs n tds no_specs ts0) as [[sp r0]|] eqn:E1;
          [|discriminate].
        destruct (sp_storage sp); [discriminate|].
        destruct (sep_list n _ "," ";" r0) as [[fs r1]|] eqn:E2;
          [|discriminate].
        destruct (parse_fields n tds r1) as [[fs' r2]|] eqn:E3;
          [|discriminate].
        injection H0 as _ <-.
        apply IHs in E1. apply IHf in E3.
        apply sep_list_shrinks in E2;
          [lia|apply not_function_shrinks, IHd]. }
      destruct ts as [|[k|y|z|c] ts']; try (apply Hbody in H; exact H).
      destruct c as [[] [] [] [] [] [] [] []];
        try (apply Hbody in H; exact H).
      injection H as _ <-. cbn [length]. lia.
    + intros tds base ts x r H. cbn [parse_declarator] in H.
      destruct (parse_pointers base ts) as [t r0] eqn:Ep.
      apply parse_pointers_shrinks in Ep.
      break_hyp H;
        repeat match goal with
          | E : parse_params n _ _ = Some _ |- _ => apply IHp in E
          end;
        injection H as _ <-; cbn [length] in *; lia.
    + intros tds ts x r H. cbn [parse_params] in H.
      match type of H with
      | context [sep_list n ?item _ _ _] =>
          assert (Hitem : shrinks item)
      end.
      { intros ts0 [y t] r0 H0.
        destruct (parse_specs n tds no_specs ts0) as [[sp r1]|] eqn:E1;
          [|discriminate].
        destruct (sp_storage sp); [discriminate|].
        destruct (parse_pointers (specs_type sp) r1) as [t1 r2] eqn:Ep.
        apply IHs in E1. apply parse_pointers_shrinks in Ep.
        break_hyp H0; injection H0 as _ _ <-; cbn [length] in *; lia. }
      break_hyp H; try (injection H as _ <-; cbn [length]; lia);
        apply (sep_list_shrinks _ _ _ Hitem) in H; lia.
Qed.

Lemma parse_init_shrinks : shrinks parse_init.
Proof.
  intros ts x r H. unfold parse_init in H.
  break_hyp H; injection H as _ <-; cbn [length]; lia.
Qed.

Lemma parse_init_declarator_shrinks (fuel : nat) (tds : list string)
    (sc : storage) (base : ctype) :
  shrinks (parse_init_declarator fuel tds sc base).
Proof.
  intros ts x r H. unfold parse_init_declarator in H.
  destruct (parse_declarator fuel tds base ts) as [[d r0]|] eqn:Ed;
    [|discriminate].
  apply (proj1 (proj2 (proj2 (parsers_shrink fuel)))) in Ed.
  break_hyp H; injection H as _ <-;
    repeat match goal with
      | E : parse_init _ = Some _ |- _ => apply parse_init_shrinks in E
      end;
    cbn [length] in *; lia.
Qed.

(** An external declaration takes at least one token. *)
Lemma parse_external_shrinks (fuel : nat) (tds : list string)
    (ts : list token) (d : external_decl) (r : list token) :
  parse_external fuel tds ts = Some (d, r) -> (length r < length ts)%nat.
Proof.
  intros H. unfold parse_external in H.
  destruct (parse_specs fuel tds no_specs ts) as [[sp r0]|] eqn:Es;
    [|discriminate].
  apply (proj1 (parsers_shrink fuel)) in Es.
  enough (Hr : (length r < length r0)%nat) by lia. clear Es.
  assert (Hbody :
    (let* (d0, r1) :=
       parse_declarator fuel tds (specs_type sp) r0 in
     match snd d0, r1, specs_storage sp with
     | TFunction _ _, TPunct "{" :: r2, STypedef => None
     | TFunction _ _, TPunct "{" :: r2, _ =>
         let* (body, r3) := take_body 0 r2 in
         Some (EFunDef (specs_storage sp) (fst d0) (snd d0) body, r3)
     | _, _, _ =>
         let* (items, r2) :=
           sep_list fuel
             (parse_init_declarator fuel tds (specs_storage sp)
                (specs_type sp))
             "," ";" r0 in
         Some (EDecl (mkDecl (specs_storage sp) (specs_type sp) items), r2)
     end) = Some (d, r) -> (length r < length r0)%nat).
  { intros H0.
    destruct (parse_declarator fuel tds (specs_type sp) r0)
      as [[d0 r1]|] eqn:Ed; [|discriminate].
    apply (proj1 (proj2 (proj2 (parsers_shrink fuel)))) in Ed.
    break_hyp H0; injection H0 as _ <-;
      repeat match goal with
        | E : take_body _ _ = Some _ |- _ => apply take_body_shrinks in E
        | E : sep_list _ _ _ _ _ = Some _ |- _ =>
            apply sep_list_shrinks in E;
            [|apply parse_init_declarator_shrinks]
        end;
      cbn [length] in *; lia. }
  destruct r0 as [|[k|y|z|c] r0']; try (apply Hbody in H; exact H).
  destruct c as [[] [] [] [] [] [] [] []]; try (apply Hbody in H; exact H).
  injection H as _ <-. cbn [length]. lia.
Qed.

(** The fuel of [parse_tu] never runs out: any fuel that is at least the
    number of tokens gives the same result. *)
Lemma parse_tu_fuel (n : nat) :
  forall (m : nat) (tds : list string) (ts : list token),
    (length ts <= n)%nat -> (length ts <= m)%nat ->
    parse_tu n tds ts = parse_tu m tds ts.
Proof.
  induction n as [|n IH]; intros m tds ts Hn Hm.
  - destruct ts; [|cbn [length] in Hn; lia]. destruct m; reflexivity.
  - destruct ts as [|t ts]; [destruct m; reflexivity|].
    destruct m as [|m]; [cbn [length] in Hm; lia|].
    cbn [parse_tu].
    destruct (parse_external (S (length (t :: ts))) tds (t :: ts))
      as [[d r]|] eqn:Ed; [|reflexivity].
    apply parse_external_shrinks in Ed. cbn [length] in *.
    rewrite (IH m _ r); [reflexivity|lia|lia].
Qed.

(** ** The two declarations, whatever follows them *)

Lemma header_tokens_split :
  header_tokens = (opaque_item_tokens ++ opaque_value_tokens)%list.
Proof. reflexivity. Qed.

Lemma parse_opaque_item (f : nat) (tds : list string) (rest : list token) :
  parse_external (6 + f) tds (opaque_item_tokens ++ rest)%list =
  Some (opaque_item_decl, rest).
Proof. reflexivity. Qed.

Lemma parse_opaque_value (f : nat) (tds : list string) (rest : list token) :
  parse_external (4 + f) tds (opaque_value_tokens ++ rest)%list =
  Some (opaque_value_decl, rest).
Proof. reflexivity. Qed.

Lemma parse_tu_header (n : nat) (tds : list string) (more : list token) :
  parse_tu (S (S n)) tds (header_tokens ++ more)%list =
  option_map (app header_tu) (parse_tu n ("OpaqueItem" :: tds) more).
Proof.
  rewrite header_tokens_split, <- app_assoc.
  change (parse_tu (S (S n)) tds
            (opaque_item_tokens ++ opaque_value_tokens ++ more)%list)
    with (let* (d, r) :=
            parse_external
              (6 + (8 + length (opaque_value_tokens ++ more)%list)) tds
              (opaque_item_tokens ++ opaque_value_tokens ++ more)%list in
          let* ds := parse_tu (S n) (typedef_names d ++ tds)%list r in
          Some (d :: ds)).
  rewrite parse_opaque_item.
  change (parse_tu (S n) (typedef_names opaque_item_decl ++ tds)%list
            (opaque_value_tokens ++ more)%list)
    with (let* (d, r) :=
            parse_external (4 + (4 + length more)) ("OpaqueItem" :: tds)
              (opaque_value_tokens ++ more)%list in
          let* ds :=
            parse_tu n (typedef_names d ++ "OpaqueItem" :: tds)%list r in
          Some (d :: ds)).
  rewrite parse_opaque_value.
  change (typedef_names opaque_value_decl ++ "OpaqueItem" :: tds)%list
    with ("OpaqueItem" :: tds).
  destruct (parse_tu n ("OpaqueItem" :: tds) more); reflexivity.
Qed.

(** ** Elaboration only adds bindings; a bound name cannot be bound again *)

Section Extension.
Variable dm : data_model.

Lemma lookup_cons_other {A : Type} (x y : string) (a b : A)
    (l : list (string * A)) :
  lookup y l = None -> lookup x l = Some b ->
  lookup x ((y, a) :: l) = Some b.
Proof.
  intros Hy Hx. cbn [lookup].
  destruct (String.eqb_spec x y) as [->|]; [congruence|exact Hx].
Qed.

Lemma is_none_true {A : Type} (o : option A) : is_none o = true -> o = None.
Proof. destruct o; [discriminate|reflexivity]. Qed.

Lemma name_free_inv (ge : genv) (x : string) :
  name_free ge x = true ->
  lookup x (ge_typedefs ge) = None /\ lookup x (ge_objects ge) = None /\
  lookup x (ge_functions ge) = None.
Proof.
  unfold name_free. rewrite !andb_true_iff.
  intros [[H1 H2] H3]. repeat split; apply is_none_true; assumption.
Qed.

Lemma env_extends_refl (ge : genv) : env_extends ge ge.
Proof. repeat split; trivial. Qed.

Lemma env_extends_trans (ge1 ge2 ge3 : genv) :
  env_extends ge1 ge2 -> env_extends ge2 ge3 -> env_extends ge1 ge3.
Proof.
  intros (A1 & A2 & A3 & A4) (B1 & B2 & B3 & B4).
  repeat split; intros; auto.
Qed.

Lemma add_struct_extends (ge ge' : genv) (t : ctype) :
  add_struct ge t = Some ge' -> env_extends ge ge'.
Proof.
  unfold add_struct.
  destruct (strip_quals t) as [| [tag|] [fs|] | | | | | |];
    try (intros [= <-]; apply env_extends_refl).
  destruct (is_none (lookup tag (ge_structs ge))) eqn:Hn; intros [= <-].
  apply is_none_true in Hn.
  repeat split; cbn; trivial.
  intros x fs0 Hx. apply lookup_cons_other; assumption.
Qed.

Lemma add_item_extends (sc : storage) (ge ge' : genv)
    (it : string * ctype * option init) :
  add_item dm sc ge it = Some ge' -> env_extends ge ge'.
Proof.
  destruct it as [[y t] i]. unfold add_item. intros H.
  destruct (name_free ge y) eqn:Hfree; [|discriminate].
  apply name_free_inv in Hfree as (Ht & Ho & Hf).
  destruct i as [e|].
  - destruct (eval_init ge e) as [v|] eqn:He;
      [destruct (value_ok dm (resolve ge t) (VInt v)) eqn:Hv|];
      destruct sc, t; try discriminate;
      injection H as <-; repeat split; cbn; trivial;
      intros; apply lookup_cons_other; assumption.
  - destruct sc, t; injection H as <-; repeat split; cbn; trivial;
      intros; apply lookup_cons_other; assumption.
Qed.

Lemma add_items_extends (sc : storage)
    (its : list (string * ctype * option init)) :
  forall ge ge' : genv,
    add_items dm sc ge its = Some ge' -> env_extends ge ge'.
Proof.
  induction its as [|it its IH]; cbn [add_items]; intros ge ge' H.
  - injection H as <-. apply env_extends_refl.
  - destruct (add_item dm sc ge it) as [ge1|] eqn:H1; [|discriminate].
    apply (env_extends_trans _ ge1); [apply (add_item_extends _ _ _ _ H1)|].
    apply IH. exact H.
Qed.

Lemma elab_decl_extends (ge ge' : genv) (d : external_decl) :
  elab_decl dm ge d = Some ge' -> env_extends ge ge'.
Proof.
  destruct d as [d|sc f t body]; cbn [elab_decl]; intros H.
  - destruct (add_struct ge (dc_base d)) as [ge1|] eqn:H1; [|discriminate].
    apply (env_extends_trans _ ge1); [apply (add_struct_extends _ _ _ H1)|].
    apply (add_items_extends _ _ _ _ H).
  - destruct (name_free ge f) eqn:Hfree; [|discriminate].
    apply name_free_inv in Hfree as (Ht & Ho & Hf).
    injection H as <-. repeat split; cbn; trivial.
    intros; apply lookup_cons_other; assumption.
Qed.

Lemma elab_from_extends (tu : translation_unit) :
  forall ge ge' : genv,
    elab_from dm ge tu = Some ge' -> env_extends ge ge'.
Proof.
  induction tu as [|d tu IH]; cbn [elab_from]; intros ge ge' H.
  - injection H as <-. apply env_extends_refl.
  - destruct (elab_decl dm ge d) as [ge1|] eqn:H1; [|discriminate].
    apply (env_extends_trans _ ge1); [apply (elab_decl_extends _ _ _ H1)|].
    apply IH. exact H.
Qed.

Lemma name_taken_extends (ge ge' : genv) (x : string) :
  env_extends ge ge' -> name_free ge x = false -> name_free ge' x = false.
Proof.
  intros (Ht & _ & Ho & Hf). unfold name_free.
  destruct (lookup x (ge_typedefs ge)) as [t|] eqn:E1.
  { rewrite (Ht _ _ E1). reflexivity. }
  destruct (lookup x (ge_objects ge)) as [ob|] eqn:E2.
  { rewrite (Ho _ _ E2). intros _. apply andb_false_intro1, andb_false_r. }
  destruct (lookup x (ge_functions ge)) as [f|] eqn:E3.
  { rewrite (Hf _ _ E3). intros _. apply andb_false_r. }
  discriminate.
Qed.

Lemma add_items_taken (sc : storage) (x : string)
    (its : list (string * ctype * option init)) :
  forall ge : genv,
    In x (map item_name its) -> name_free ge x = false ->
    add_items dm sc ge its = None.
Proof.
  induction its as [|it its IH]; cbn [map In add_items]; intros ge Hin Hx;
    [contradiction|].
  destruct (add_item dm sc ge it) as [ge1|] eqn:H1; [|reflexivity].
  destruct Hin as [Heq|Hin].
  - destruct it as [[y t] i]. cbn in Heq. subst y.
    unfold add_item in H1. rewrite Hx in H1. discriminate.
  - apply IH; [exact Hin|].
    apply (name_taken_extends ge); [|exact Hx].
    apply (add_item_extends _ _ _ _ H1).
Qed.

Lemma elab_decl_taken (ge : genv) (d : external_decl) (x : string) :
  In x (declared_names d) -> name_free ge x = false ->
  elab_decl dm ge d = None.
Proof.
  destruct d as [d|sc f t body]; cbn [declared_names elab_decl];
    intros Hin Hx.
  - destruct (add_struct ge (dc_base d)) as [ge1|] eqn:H1; [|reflexivity].
    apply (add_items_taken _ x); [exact Hin|].
    apply (name_taken_extends ge); [|exact Hx].
    apply (add_struct_extends _ _ _ H1).
  - destruct Hin as [<-|[]]. rewrite Hx. reflexivity.
Qed.

Lemma elab_decl_tag_taken (ge : genv) (d : external_decl) (tag : string)
    (fs : list (string * ctype)) :
  In tag (struct_tags d) -> lookup tag (ge_structs ge) = Some fs ->
  elab_decl dm ge d = None.
Proof.
  destruct d as [d|sc f t body]; cbn [struct_tags elab_decl];
    [|contradiction].
  unfold add_struct.
  destruct (strip_quals (dc_base d)) as [| [tag'|] [fs'|] | | | | | |];
    try contradiction.
  intros [->|[]] Hl. rewrite Hl. reflexivity.
Qed.

End Extension.

(** ** The header under any data model *)

Lemma seven_fits (dm : data_model) :
  value_ok dm (TConst (TBasic [BInt])) (VInt 7) = (4 <=? int_bits dm)%Z.
Proof.
  change (value_ok dm (TConst (TBasic [BInt])) (VInt 7))
    with (value_ok dm (TBasic [BInt]) (VInt 7)).
  destruct (Z.leb_spec 4 (int_bits dm)) as [Hw|Hw].
  - apply int_value_ok. unfold int_lo, int_hi.
    assert (H8 : (2 ^ 3 <= 2 ^ (int_bits dm - 1))%Z)
      by (apply Z.pow_le_mono_r; lia).
    lia.
  - destruct (value_ok dm (TBasic [BInt]) (VInt 7)) eqn:E; [|reflexivity].
    apply int_value_ok in E. unfold int_lo, int_hi in E. exfalso.
    destruct (Z.lt_ge_cases (int_bits dm - 1) 0) as [Hneg|Hpos].
    + rewrite (Z.pow_neg_r 2 _ Hneg) in E. lia.
    + assert (H4 : (2 ^ (int_bits dm - 1) <= 2 ^ 2)%Z)
        by (apply Z.pow_le_mono_r; lia).
      lia.
Qed.

Lemma elab_header (dm : data_model) :
  elab dm header_tu =
  if (4 <=? int_bits dm)%Z then Some header_env else None.
Proof.
  unfold elab, header_tu, opaque_item_decl, opaque_value_decl.
  cbn -[value_ok Z.leb].
  rewrite seven_fits.
  destruct (4 <=? int_bits dm)%Z; reflexivity.
Qed.

Lemma elab_header_more (dm : data_model) (more : translation_unit) :
  elab dm (header_tu ++ more)%list =
  if (4 <=? int_bits dm)%Z then elab_from dm header_env more else None.
Proof.
  unfold elab. rewrite elab_from_app.
  change (elab_from dm empty_genv header_tu) with (elab dm header_tu).
  rewrite elab_header. destruct (4 <=? int_bits dm)%Z; reflexivity.
Qed.

(** ** Parsing what follows the header *)

Lemma parse_tokens_after_header (more : list token) :
  parse_translation_unit (header_tokens ++ more)%list =
  option_map (app header_tu) (parse_after_header more).
Proof.
  unfold parse_translation_unit, parse_after_header.
  rewrite length_app.
  change (length header_tokens + length more)%nat
    with (S (S (18 + length more))).
  rewrite parse_tu_header.
  rewrite (parse_tu_fuel (18 + length more) (length more)); [reflexivity| |];
    lia.
Qed.

Lemma lex_after_header (s : string) :
  lex (opaque_header_h ++ s) = option_map (app header_lexemes) (lex s).
Proof.
  unfold lex. rewrite lex_from_run, header_lex_run. reflexivity.
Qed.

Lemma header_lexemes_tokens (ls : list lexeme) :
  tokens_of (header_lexemes ++ ls) = (header_tokens ++ tokens_of ls)%list.
Proof. rewrite tokens_of_app. reflexivity. Qed.

(** * Further properties of the header *)

(** X1: under the 32-bit model, the values of the type that [OpaqueItem]
    stands for are exactly the structs of a field [count] and a field
    [flags], in this order, each holding any value of [int]. *)
Theorem X1_opaque_item_values (t : ctype) (v : value) :
  file_typedef opaque_header_h "OpaqueItem" = Some t ->
  (value_ok int32_model t v = true <->
   exists c f : Z, v = opaque_item_value c f /\ in_int32 c /\ in_int32 f).
Proof.
  intros Ht.
  assert (Hs : file_typedef opaque_header_h "OpaqueItem" = Some opaque_struct)
    by (vm_compute; reflexivity).
  rewrite Hs in Ht. injection Ht as <-.
  unfold opaque_struct, opaque_fields, opaque_item_value, in_int32.
  rewrite two_int_struct_values.
  change (int_lo int32_model) with (- 2 ^ 31)%Z.
  change (int_hi int32_model) with (2 ^ 31 - 1)%Z.
  split; intros (c & f & Hv & Hc & Hf); exists c, f;
    (split; [exact Hv|lia]).
Qed.

(** X1 at [opaque_struct] and the value with [count] = 3, [flags] = -4. *)
Lemma X1_opaque_item_values_witness :
  file_typedef opaque_header_h "OpaqueItem" = Some opaque_struct /\
  (value_ok int32_model opaque_struct (opaque_item_value 3 (-4)) = true <->
   exists c f : Z,
     opaque_item_value 3 (-4) = opaque_item_value c f /\
     in_int32 c /\ in_int32 f).
Proof.
  assert (Hs : file_typedef opaque_header_h "OpaqueItem" = Some opaque_struct)
    by (vm_compute; reflexivity).
  split; [exact Hs|].
  exact (X1_opaque_item_values opaque_struct (opaque_item_value 3 (-4)) Hs).
Defined.










